(** * Analog clock stepper driver (clock.c): phase sequencer and rate arbiter

    A shallow embedding of the ATtiny85 firmware in [clock.c].  The three
    volatile globals, the function-static phase counter of the Timer-1
    compare interrupt routine and the output latch PORTB form the machine
    state.  Fixed-width C integers are integers of [Z] with their
    wrap-around written out; the interrupt routine and one pass of the
    push-button loop of [main] are state transformers. *)

From Stdlib Require Import ZArith List Bool Lia.
Import ListNotations.

Local Open Scope Z_scope.

(** ** Fixed-width integers *)

(** Conversion to [uint8_t] and to [uint16_t]. *)
Definition wrap8 (x : Z) : Z := x mod 256.
Definition wrap16 (x : Z) : Z := x mod 65536.

(** ** Constants of clock.c *)

Definition PB_DDR_INIT : Z := 0x03.
Definition PB_PUP_INIT : Z := 0x14.
Definition PB_INIT : Z := 0x00.

Definition BUTTON_FAST_FWD : Z := 0x04.
Definition BUTTON_FAST_REV : Z := 0x10.

Definition RATE_FAST : Z := 0.
Definition RATE_NORMAL : Z := 2.

Definition DIR_FWD : Z := 1.
Definition DIR_REV : Z := 2.

(** ** Machine state *)

(** [timerTicks], [clock_direction] and [clock_rate] are the globals,
    [two_bit_counter] is the static local of the interrupt routine and
    [PORTB] is the port B output latch. *)
Record machine : Type := mkMachine {
  timerTicks : Z;
  clock_direction : Z;
  clock_rate : Z;
  two_bit_counter : Z;
  PORTB : Z
}.

Definition set_timerTicks (v : Z) (s : machine) : machine :=
  mkMachine v (clock_direction s) (clock_rate s) (two_bit_counter s) (PORTB s).

Definition set_clock_direction (v : Z) (s : machine) : machine :=
  mkMachine (timerTicks s) v (clock_rate s) (two_bit_counter s) (PORTB s).

Definition set_clock_rate (v : Z) (s : machine) : machine :=
  mkMachine (timerTicks s) (clock_direction s) v (two_bit_counter s) (PORTB s).

Definition set_two_bit_counter (v : Z) (s : machine) : machine :=
  mkMachine (timerTicks s) (clock_direction s) (clock_rate s) v (PORTB s).

Definition set_PORTB (v : Z) (s : machine) : machine :=
  mkMachine (timerTicks s) (clock_direction s) (clock_rate s) (two_bit_counter s) v.

(** Every field is within the range of its C type: [uint16_t] for the tick
    counter and the rate, a 16-bit [int] for the direction, [uint8_t] for the
    phase counter and the port latch. *)
Definition well_typed (s : machine) : Prop :=
  0 <= timerTicks s < 65536 /\
  -32768 <= clock_direction s < 32768 /\
  0 <= clock_rate s < 65536 /\
  0 <= two_bit_counter s < 256 /\
  0 <= PORTB s < 256.

(** The state the C start-up code establishes from the initialisers, with
    the port latch at its hardware reset value. *)
Definition power_on : machine :=
  mkMachine 0 DIR_FWD RATE_NORMAL 0 0.

(** [ioinit], restricted to the register the sequencer later touches:
    [PORTB = PB_INIT | PB_PUP_INIT]. *)
Definition ioinit (s : machine) : machine :=
  set_PORTB (Z.lor PB_INIT PB_PUP_INIT) s.

(** The state in which [main] enables interrupts and enters its loop. *)
Definition boot : machine := ioinit power_on.

(** ** The Timer-1 compare interrupt routine *)

(** Stores to the output port are the only externally visible effect of the
    routine; each one is recorded with the byte stored. *)
Inductive io_event : Type :=
| PortbWrite (v : Z).

(** The test [timerTicks > clock_rate] as seen after [timerTicks++]. *)
Definition compare_branch (s : machine) : bool :=
  wrap16 (timerTicks s + 1) >? clock_rate s.

(** [ISR(TIMER1_COMPA_vect)]: the state on return and the port stores made. *)
Definition ISR_TIMER1_COMPA (s : machine) : machine * list io_event :=
  let s := set_timerTicks (wrap16 (timerTicks s + 1)) s in
  if timerTicks s >? clock_rate s then
    let s := set_timerTicks 0 s in
    let temp_port := wrap8 (Z.land (PORTB s) 0xFC) in
    let temp_port := wrap8 (Z.lor temp_port (Z.land (two_bit_counter s) 0x03)) in
    let s := set_PORTB temp_port s in
    let s :=
      if clock_direction s =? DIR_FWD
      then set_two_bit_counter (wrap8 (two_bit_counter s - 1)) s
      else set_two_bit_counter (wrap8 (two_bit_counter s + 1)) s in
    (s, [PortbWrite temp_port])
  else
    (s, []).

Definition isr (s : machine) : machine := fst (ISR_TIMER1_COMPA s).
Definition isr_io (s : machine) : list io_event := snd (ISR_TIMER1_COMPA s).

(** [n] consecutive invocations with nothing else running in between. *)
Fixpoint run (n : nat) (s : machine) : machine :=
  match n with
  | O => s
  | S n' => run n' (isr s)
  end.

(** The port stores of [n] consecutive invocations, oldest first. *)
Fixpoint run_io (n : nat) (s : machine) : list io_event :=
  match n with
  | O => []
  | S n' => isr_io s ++ run_io n' (isr s)
  end.

(** The number of invocations among [n] that took the compare branch, each
    of which steps the phase counter once and stores to the port once. *)
Definition transitions (n : nat) (s : machine) : nat :=
  length (run_io n s).

(** The two bits of the phase counter that reach the output lines. *)
Definition phase (s : machine) : Z := Z.land (two_bit_counter s) 0x03.

(** ** One pass of the push-button loop of [main] *)

(** [pinb1] is the value of PINB read by the first test; [pinb2] is the value
    read by the second test, which is evaluated only when the first fails.
    In each arm the rate is stored before the direction. *)
Definition arbiter (pinb1 pinb2 : Z) (s : machine) : machine :=
  if Z.land pinb1 BUTTON_FAST_FWD =? 0 then
    set_clock_direction DIR_FWD (set_clock_rate RATE_FAST s)
  else if Z.land pinb2 BUTTON_FAST_REV =? 0 then
    set_clock_direction DIR_REV (set_clock_rate RATE_FAST s)
  else
    set_clock_direction DIR_FWD (set_clock_rate RATE_NORMAL s).

(** ** Executions *)

(** States at the granularity of single stores of the loop: the interrupt
    may be taken between the two stores of one pass, so every state in which
    the routine can start is covered. *)
Inductive reachable : machine -> Prop :=
| reach_boot : reachable boot
| reach_isr s : reachable s -> reachable (isr s)
| reach_rate_fast s : reachable s -> reachable (set_clock_rate RATE_FAST s)
| reach_rate_normal s : reachable s -> reachable (set_clock_rate RATE_NORMAL s)
| reach_dir_fwd s : reachable s -> reachable (set_clock_direction DIR_FWD s)
| reach_dir_rev s : reachable s -> reachable (set_clock_direction DIR_REV s).

(** States observed between complete passes of the loop, with any number of
    interrupts taken in between. *)
Inductive settled : machine -> Prop :=
| settled_boot : settled boot
| settled_isr s : settled s -> settled (isr s)
| settled_pass pinb1 pinb2 s : settled s -> settled (arbiter pinb1 pinb2 s).

(** ** Derived notions used in the statements *)

(** The byte the routine stores to the port, simplified. *)
Definition merged_port (p c : Z) : Z :=
  wrap8 (Z.lor (wrap8 (Z.land p 0xFC)) (Z.land c 0x03)).

(** The step the routine applies to the phase counter under direction [d]. *)
Definition step_counter (d c : Z) : Z :=
  if d =? DIR_FWD then wrap8 (c - 1) else wrap8 (c + 1).

(** The signed unit the routine adds to the phase counter. *)
Definition direction_step (d : Z) : Z := if d =? DIR_FWD then -1 else 1.

(** The state just after two interrupts from [boot]: the tick counter has
    reached the Normal threshold, so the next invocation takes the branch. *)
Definition before_first_step : machine := run 2 boot.

(** What holds at every point of every execution: the two variables the loop
    writes hold one of the values it stores, the tick counter never passes
    the Normal threshold, and the phase counter and the port latch are
    bytes. *)
Definition inv (s : machine) : Prop :=
  (clock_rate s = RATE_FAST \/ clock_rate s = RATE_NORMAL) /\
  (clock_direction s = DIR_FWD \/ clock_direction s = DIR_REV) /\
  0 <= timerTicks s <= RATE_NORMAL /\
  0 <= two_bit_counter s < 256 /\
  0 <= PORTB s < 256.

(** The [k]-th byte stored to the port, counting from 0, by a run that
    starts with port [p], phase counter [c] and direction [d]: the upper six
    bits of [p] with the low two bits of the counter after [k] steps. *)
Definition nth_store (p c d : Z) (k : nat) : io_event :=
  PortbWrite
    (Z.lor (Z.land p 0xFC)
       (Z.land (c + direction_step d * Z.of_nat k) 0x03)).

(** The atomic actions of an execution: one invocation of the interrupt
    routine, or one of the two stores a pass of the loop makes.  The
    interrupt can come before, between or after the stores of a pass. *)
Inductive op : Type :=
| Interrupt
| StoreRate (r : Z)
| StoreDirection (d : Z).

Definition apply_op (o : op) (s : machine) : machine :=
  match o with
  | Interrupt => isr s
  | StoreRate r => set_clock_rate r s
  | StoreDirection d => set_clock_direction d s
  end.

(** The actions of a schedule applied from left to right. *)
Fixpoint execute (sched : list op) (s : machine) : machine :=
  match sched with
  | [] => s
  | o :: sched' => execute sched' (apply_op o s)
  end.

Fixpoint interrupts_in (sched : list op) : nat :=
  match sched with
  | [] => O
  | Interrupt :: sched' => S (interrupts_in sched')
  | _ :: sched' => interrupts_in sched'
  end.

(** The two stores of the pass that reads [pinb1] and [pinb2], in program
    order. *)
Definition pass_ops (pinb1 pinb2 : Z) : list op :=
  if Z.land pinb1 BUTTON_FAST_FWD =? 0 then
    [StoreRate RATE_FAST; StoreDirection DIR_FWD]
  else if Z.land pinb2 BUTTON_FAST_REV =? 0 then
    [StoreRate RATE_FAST; StoreDirection DIR_REV]
  else
    [StoreRate RATE_NORMAL; StoreDirection DIR_FWD].

(** ** Bit-level facts about the masks *)

Lemma mask_03 : 0x03 = Z.ones 2.
Proof. reflexivity. Qed.

Lemma mask_FC : 0xFC = Z.ldiff (Z.ones 8) (Z.ones 2).
Proof. reflexivity. Qed.

Lemma wrap8_land (x : Z) : wrap8 x = Z.land x (Z.ones 8).
Proof. unfold wrap8. rewrite Z.land_ones by lia. reflexivity. Qed.

(** Compare two integers bit by bit, the masks being turned into ranges of
    bit positions. *)
Ltac bitwise :=
  rewrite ?wrap8_land, ?mask_03, ?mask_FC;
  apply Z.bits_inj'; intros n Hn;
  repeat (rewrite ?Z.land_spec, ?Z.lor_spec, ?Z.ldiff_spec,
            ?(fun k => Z.testbit_ones_nonneg k n) by lia);
  destruct (Z.ltb_spec n 8), (Z.ltb_spec n 2); try lia;
  repeat match goal with
         | |- context [Z.testbit ?a n] => destruct (Z.testbit a n)
         end;
  reflexivity.

Lemma land_03_mod4 (x : Z) : Z.land x 0x03 = x mod 4.
Proof. rewrite mask_03, Z.land_ones by lia. reflexivity. Qed.

Lemma wrap8_mod4 (x : Z) : wrap8 x mod 4 = x mod 4.
Proof.
  unfold wrap8. apply Z.mod_mod_divide. exists 64. reflexivity.
Qed.

Lemma wrap8_range (x : Z) : 0 <= wrap8 x < 256.
Proof. unfold wrap8. apply Z.mod_pos_bound. lia. Qed.

Lemma wrap16_range (x : Z) : 0 <= wrap16 x < 65536.
Proof. unfold wrap16. apply Z.mod_pos_bound. lia. Qed.

Lemma wrap16_small (x : Z) : 0 <= x < 65536 -> wrap16 x = x.
Proof. unfold wrap16. apply Z.mod_small. Qed.

Lemma merged_port_no_wrap (p c : Z) :
  merged_port p c = Z.lor (Z.land p 0xFC) (Z.land c 0x03).
Proof. unfold merged_port. bitwise. Qed.

Lemma merged_port_low (p c : Z) :
  Z.land (merged_port p c) 0x03 = Z.land c 0x03.
Proof. unfold merged_port. bitwise. Qed.

Lemma merged_port_high (p c : Z) :
  Z.land (merged_port p c) 0xFC = Z.land p 0xFC.
Proof. unfold merged_port. bitwise. Qed.

Lemma merged_port_range (p c : Z) : 0 <= merged_port p c < 256.
Proof. unfold merged_port. apply wrap8_range. Qed.

(** ** Equations of the interrupt routine *)

Lemma ISR_taken (s : machine) :
  compare_branch s = true ->
  ISR_TIMER1_COMPA s =
    (mkMachine 0 (clock_direction s) (clock_rate s)
       (step_counter (clock_direction s) (two_bit_counter s))
       (merged_port (PORTB s) (two_bit_counter s)),
     [PortbWrite (merged_port (PORTB s) (two_bit_counter s))]).
Proof.
  unfold compare_branch, ISR_TIMER1_COMPA, step_counter, merged_port.
  cbn [timerTicks set_timerTicks clock_rate]. intros ->.
  cbn [set_PORTB set_timerTicks clock_direction PORTB two_bit_counter
       clock_rate timerTicks].
  destruct (clock_direction s =? DIR_FWD); reflexivity.
Qed.

Lemma ISR_idle (s : machine) :
  compare_branch s = false ->
  ISR_TIMER1_COMPA s = (set_timerTicks (wrap16 (timerTicks s + 1)) s, []).
Proof.
  unfold compare_branch, ISR_TIMER1_COMPA.
  cbn [timerTicks set_timerTicks clock_rate]. intros ->. reflexivity.
Qed.

Lemma isr_clock_rate (s : machine) : clock_rate (isr s) = clock_rate s.
Proof.
  unfold isr. destruct (compare_branch s) eqn:E.
  - rewrite (ISR_taken s E). reflexivity.
  - rewrite (ISR_idle s E). reflexivity.
Qed.

Lemma isr_clock_direction (s : machine) :
  clock_direction (isr s) = clock_direction s.
Proof.
  unfold isr. destruct (compare_branch s) eqn:E.
  - rewrite (ISR_taken s E). reflexivity.
  - rewrite (ISR_idle s E). reflexivity.
Qed.

Lemma isr_io_length (s : machine) :
  length (isr_io s) = if compare_branch s then 1%nat else 0%nat.
Proof.
  unfold isr_io. destruct (compare_branch s) eqn:E.
  - rewrite (ISR_taken s E). reflexivity.
  - rewrite (ISR_idle s E). reflexivity.
Qed.

Lemma transitions_S (n : nat) (s : machine) :
  transitions (S n) s =
    ((if compare_branch s then 1 else 0) + transitions n (isr s))%nat.
Proof.
  unfold transitions. cbn [run_io].
  rewrite length_app, isr_io_length. reflexivity.
Qed.

Lemma phase_step_counter_fwd (c : Z) :
  Z.land (step_counter DIR_FWD c) 0x03 = (Z.land c 0x03 - 1) mod 4.
Proof.
  unfold step_counter. rewrite Z.eqb_refl.
  rewrite !land_03_mod4, wrap8_mod4, Zminus_mod_idemp_l. reflexivity.
Qed.

Lemma phase_step_counter_rev (d c : Z) :
  d <> DIR_FWD ->
  Z.land (step_counter d c) 0x03 = (Z.land c 0x03 + 1) mod 4.
Proof.
  intros Hd. unfold step_counter.
  destruct (Z.eqb_spec d DIR_FWD) as [E | _]; [contradiction |].
  rewrite !land_03_mod4, wrap8_mod4, Zplus_mod_idemp_l. reflexivity.
Qed.

Lemma step_counter_range (d c : Z) : 0 <= step_counter d c < 256.
Proof. unfold step_counter. destruct (d =? DIR_FWD); apply wrap8_range. Qed.

Lemma isr_two_bit_counter_range (s : machine) :
  0 <= two_bit_counter s < 256 -> 0 <= two_bit_counter (isr s) < 256.
Proof.
  intros Hc. unfold isr. destruct (compare_branch s) eqn:E.
  - rewrite (ISR_taken s E). apply step_counter_range.
  - rewrite (ISR_idle s E). exact Hc.
Qed.

Lemma isr_PORTB_range (s : machine) :
  0 <= PORTB s < 256 -> 0 <= PORTB (isr s) < 256.
Proof.
  intros Hp. unfold isr. destruct (compare_branch s) eqn:E.
  - rewrite (ISR_taken s E). apply merged_port_range.
  - rewrite (ISR_idle s E). exact Hp.
Qed.

(** ** The phase sequencer *)

(** C1, as the routine is written: when the incremented tick counter
    exceeds the rate threshold, the routine resets the tick counter to 0,
    stores the low two bits of the phase counter it found on entry to the
    output lines (one store, the other six bits kept), and only then steps
    the counter by -1 under Forward and by +1 otherwise, so that on return
    the two output bits hold the phase before the step and the counter's low
    two bits hold that phase moved by one, modulo 4. *)
Theorem isr_taken_writes_then_steps (s : machine) :
  compare_branch s = true ->
  timerTicks (isr s) = 0 /\
  Z.land (PORTB (isr s)) 0x03 = phase s /\
  isr_io s = [PortbWrite (PORTB (isr s))] /\
  (clock_direction s = DIR_FWD ->
     two_bit_counter (isr s) = wrap8 (two_bit_counter s - 1) /\
     phase (isr s) = (phase s - 1) mod 4) /\
  (clock_direction s <> DIR_FWD ->
     two_bit_counter (isr s) = wrap8 (two_bit_counter s + 1) /\
     phase (isr s) = (phase s + 1) mod 4).
Proof.
  intros E. unfold isr, isr_io, phase. rewrite (ISR_taken s E).
  cbn [fst snd timerTicks PORTB two_bit_counter].
  split; [reflexivity |].
  split; [apply merged_port_low |].
  split; [reflexivity |].
  split; intros Hd.
  - rewrite Hd. split.
    + unfold step_counter. rewrite Z.eqb_refl. reflexivity.
    + apply phase_step_counter_fwd.
  - split.
    + unfold step_counter.
      destruct (Z.eqb_spec (clock_direction s) DIR_FWD);
        [contradiction | reflexivity].
    + apply phase_step_counter_rev. assumption.
Qed.

Lemma isr_taken_writes_then_steps_witness :
  compare_branch before_first_step = true /\
  timerTicks (isr before_first_step) = 0 /\
  Z.land (PORTB (isr before_first_step)) 0x03 = phase before_first_step.
Proof.
  split; [reflexivity |].
  destruct (isr_taken_writes_then_steps before_first_step eq_refl)
    as (Ht & Hp & _).
  split; assumption.
Defined.

(** C1 as stated fails: on return from the first invocation that takes the
    branch after [boot], the output bits are 0 while the stepped phase
    counter shows 3. *)
Lemma isr_output_is_not_new_phase :
  compare_branch before_first_step = true /\
  Z.land (PORTB (isr before_first_step)) 0x03 = 0 /\
  phase (isr before_first_step) = 3 /\
  Z.land (PORTB (isr before_first_step)) 0x03 <> phase (isr before_first_step).
Proof.
  split; [reflexivity |].
  split; [reflexivity |].
  split; [reflexivity |].
  vm_compute. discriminate.
Qed.

Lemma phase_range (s : machine) : 0 <= phase s <= 3.
Proof.
  unfold phase. rewrite land_03_mod4.
  pose proof (Z.mod_pos_bound (two_bit_counter s) 4). lia.
Qed.

(** C2: whatever value v in {0,1,2,3} the low two bits of the phase counter
    hold, one transition step of the sequencer takes them to (v-1) mod 4
    when the direction is Forward and to (v+1) mod 4 when it is Reverse. *)
Theorem sequencer_step_mod4 (s : machine) (v : Z) :
  compare_branch s = true ->
  phase s = v ->
  0 <= v <= 3 /\
  (clock_direction s = DIR_FWD -> phase (isr s) = (v - 1) mod 4) /\
  (clock_direction s = DIR_REV -> phase (isr s) = (v + 1) mod 4).
Proof.
  intros E <-. split; [apply phase_range |].
  unfold isr, phase. rewrite (ISR_taken s E). cbn [fst two_bit_counter].
  split; intros ->.
  - apply phase_step_counter_fwd.
  - apply phase_step_counter_rev. discriminate.
Qed.

Lemma sequencer_step_mod4_witness :
  phase (isr (mkMachine 0 DIR_REV RATE_FAST 3 0x14)) = (3 + 1) mod 4.
Proof.
  refine (proj2 (proj2 (sequencer_step_mod4
                          (mkMachine 0 DIR_REV RATE_FAST 3 0x14) 3 _ _)) _);
    reflexivity.
Defined.

(** *** Division of the interrupt rate *)

Section Divider.

(** The threshold held in [clock_rate].  The routine compares after a
    16-bit increment, so the threshold must leave room for one value above
    it; both thresholds the loop stores, 0 and 2, do. *)
Variable T : Z.
Hypothesis T_range : 0 <= T < 65535.

Lemma compare_branch_at (s : machine) :
  clock_rate s = T ->
  0 <= timerTicks s <= T ->
  compare_branch s = (timerTicks s =? T).
Proof.
  intros Hr Hk. unfold compare_branch.
  rewrite wrap16_small, Hr by lia.
  destruct (Z.eqb_spec (timerTicks s) T), (Z.gtb_spec (timerTicks s + 1) T);
    try reflexivity; lia.
Qed.

Lemma isr_ticks_at (s : machine) :
  clock_rate s = T ->
  0 <= timerTicks s <= T ->
  timerTicks (isr s) = (timerTicks s + 1) mod (T + 1).
Proof.
  intros Hr Hk. unfold isr.
  destruct (compare_branch s) eqn:E; rewrite compare_branch_at in E by assumption.
  - apply Z.eqb_eq in E.
    rewrite ISR_taken by (rewrite compare_branch_at, E by assumption; apply Z.eqb_refl).
    cbn [fst timerTicks]. rewrite E, Z.mod_same by lia. reflexivity.
  - apply Z.eqb_neq in E.
    rewrite ISR_idle
      by (rewrite compare_branch_at by assumption; apply Z.eqb_neq; assumption).
    cbn [fst timerTicks set_timerTicks].
    rewrite wrap16_small, Z.mod_small by lia. reflexivity.
Qed.

(** From any tick count [k] within the threshold, [n] invocations take the
    branch [(n + k) / (T + 1)] times. *)
Lemma transitions_from (n : nat) :
  forall s : machine,
    clock_rate s = T ->
    0 <= timerTicks s <= T ->
    Z.of_nat (transitions n s) = (Z.of_nat n + timerTicks s) / (T + 1).
Proof.
  induction n as [| n IH]; intros s Hr Hk.
  - cbn. rewrite Z.div_small by lia. reflexivity.
  - rewrite transitions_S, Nat2Z.inj_add, IH.
    + rewrite isr_ticks_at, compare_branch_at by assumption.
      destruct (Z.eqb_spec (timerTicks s) T) as [E | E].
      * rewrite E, Z.mod_same by lia.
        replace (Z.of_nat (S n) + T) with (Z.of_nat n + 1 * (T + 1)) by lia.
        rewrite Z.div_add, Z.add_0_r by lia. change (Z.of_nat 1) with 1. lia.
      * rewrite Z.mod_small by lia. change (Z.of_nat 0) with 0.
        replace (Z.of_nat (S n) + timerTicks s)
          with (Z.of_nat n + (timerTicks s + 1)) by lia.
        reflexivity.
    + rewrite isr_clock_rate. assumption.
    + rewrite isr_ticks_at by assumption.
      assert (0 < T + 1) as HT by lia.
      pose proof (Z.mod_pos_bound (timerTicks s + 1) (T + 1) HT). lia.
Qed.

End Divider.

Lemma step_counter_direction_step (d c : Z) :
  step_counter d c = wrap8 (c + direction_step d).
Proof.
  unfold step_counter, direction_step. destruct (d =? DIR_FWD); reflexivity.
Qed.

(** Every transition is one step of the counter: after [n] invocations the
    counter has moved by the number of transitions, in the direction held. *)
Lemma run_two_bit_counter (n : nat) :
  forall s : machine,
    0 <= two_bit_counter s < 256 ->
    two_bit_counter (run n s) =
      wrap8 (two_bit_counter s
             + direction_step (clock_direction s) * Z.of_nat (transitions n s)).
Proof.
  induction n as [| n IH]; intros s Hc.
  - cbn [run transitions run_io length Z.of_nat].
    rewrite Z.mul_0_r, Z.add_0_r. unfold wrap8.
    rewrite Z.mod_small by lia. reflexivity.
  - cbn [run]. rewrite IH by (apply isr_two_bit_counter_range; exact Hc).
    rewrite transitions_S, Nat2Z.inj_add, isr_clock_direction.
    unfold isr at 1. destruct (compare_branch s) eqn:E.
    + rewrite (ISR_taken s E). cbn [fst two_bit_counter].
      rewrite step_counter_direction_step. unfold wrap8.
      rewrite Zplus_mod_idemp_l. f_equal. change (Z.of_nat 1) with 1. lia.
    + rewrite (ISR_idle s E). cbn [fst two_bit_counter set_timerTicks].
      f_equal.
Qed.

(** C3: with the tick counter at 0 and the rate threshold held at T, N
    consecutive interrupts make exactly floor(N / (T+1)) phase transitions,
    for every N and every threshold T that a 16-bit increment can exceed (0
    <= T < 65535, which includes Fast = 0 and Normal = 2).  The direction is
    whatever the state holds; the routine changes neither it nor the rate,
    and the 8-bit phase counter ends that many steps away from where it
    started. *)
Theorem transitions_per_threshold (N : nat) (T : Z) (s : machine) :
  0 <= T < 65535 ->
  clock_rate s = T ->
  timerTicks s = 0 ->
  0 <= two_bit_counter s < 256 ->
  Z.of_nat (transitions N s) = Z.of_nat N / (T + 1) /\
  two_bit_counter (run N s) =
    wrap8 (two_bit_counter s
           + direction_step (clock_direction s) * (Z.of_nat N / (T + 1))) /\
  clock_rate (run N s) = T /\
  clock_direction (run N s) = clock_direction s.
Proof.
  intros HT Hr Hk Hc.
  assert (Z.of_nat (transitions N s) = Z.of_nat N / (T + 1)) as Hn.
  { rewrite (transitions_from T HT N s Hr) by lia.
    rewrite Hk, Z.add_0_r. reflexivity. }
  split; [exact Hn |].
  split; [rewrite <- Hn; apply run_two_bit_counter; exact Hc |].
  - clear Hk Hn Hc. revert s Hr. induction N as [| N IH]; intros s Hr.
    + split; [assumption | reflexivity].
    + cbn [run]. destruct (IH (isr s)) as [H1 H2].
      * rewrite isr_clock_rate. assumption.
      * rewrite H1, H2, isr_clock_direction. split; reflexivity.
Qed.

Lemma transitions_per_threshold_witness :
  Z.of_nat (transitions 10 boot) = 10 / (2 + 1).
Proof.
  refine (proj1 (transitions_per_threshold 10 2 boot _ _ _ _));
    [lia | reflexivity | reflexivity | ].
  change (two_bit_counter boot) with 0. lia.
Defined.

(** At the one threshold left out above the 16-bit increment wraps from
    65535 to 0 before the comparison, and the branch is never taken. *)
Lemma compare_branch_never_at_max (s : machine) :
  clock_rate s = 65535 -> compare_branch s = false.
Proof.
  intros Hr. unfold compare_branch. rewrite Hr.
  pose proof (wrap16_range (timerTicks s + 1)).
  destruct (Z.gtb_spec (wrap16 (timerTicks s + 1)) 65535); [lia | reflexivity].
Qed.

(** C4: from tick counter 0, phase counter 0, threshold Normal and direction
    Forward, nine interrupts make exactly three transitions, each a
    decrement: the 8-bit counter ends at 0 - 3 wrapped, 253, whose low two
    bits are (0 - 3) mod 4 = 1. *)
Theorem normal_forward_nine_interrupts (s : machine) :
  timerTicks s = 0 ->
  two_bit_counter s = 0 ->
  clock_rate s = RATE_NORMAL ->
  clock_direction s = DIR_FWD ->
  transitions 9 s = 3%nat /\
  two_bit_counter (run 9 s) = wrap8 (0 - 3) /\
  phase (run 9 s) = (0 - 3) mod 4 /\
  phase (run 9 s) = 1.
Proof.
  destruct s as [t d r c p]. cbn [timerTicks clock_direction clock_rate two_bit_counter].
  intros -> -> -> ->.
  split; [vm_compute; reflexivity |].
  split; [vm_compute; reflexivity |].
  split; vm_compute; reflexivity.
Qed.

Lemma normal_forward_nine_interrupts_witness :
  transitions 9 boot = 3%nat /\ phase (run 9 boot) = 1.
Proof.
  destruct (normal_forward_nine_interrupts boot eq_refl eq_refl eq_refl eq_refl)
    as (Hn & _ & _ & Hp).
  split; assumption.
Defined.

(** ** Invariants of every execution *)

(** After the nine interrupts of the scenario above the output lines still
    show the phase stored by the last transition, 2, one step behind the
    counter's own low bits. *)
Lemma nine_interrupts_port_lags :
  Z.land (PORTB (run 9 boot)) 0x03 = 2 /\ phase (run 9 boot) = 1.
Proof. split; reflexivity. Qed.

(** A state that satisfies the invariant is within the ranges of the C
    types, so no conversion loses anything on it. *)
Lemma inv_well_typed (s : machine) : inv s -> well_typed s.
Proof.
  unfold inv, well_typed, RATE_FAST, RATE_NORMAL, DIR_FWD, DIR_REV.
  intros (Hr & Hd & Ht & Hc & Hp). lia.
Qed.

Lemma inv_boot : inv boot.
Proof.
  unfold inv.
  change (timerTicks boot) with 0. change (two_bit_counter boot) with 0.
  change (PORTB boot) with 20. unfold RATE_NORMAL at 2.
  split; [right; reflexivity |]. split; [left; reflexivity |]. lia.
Qed.

Lemma isr_ticks_cases (s : machine) :
  (compare_branch s = true /\ timerTicks (isr s) = 0) \/
  (compare_branch s = false /\
   timerTicks (isr s) = wrap16 (timerTicks s + 1) /\
   wrap16 (timerTicks s + 1) <= clock_rate s).
Proof.
  unfold isr. destruct (compare_branch s) eqn:E.
  - left. rewrite (ISR_taken s E). split; reflexivity.
  - right. rewrite (ISR_idle s E). split; [reflexivity |].
    split; [reflexivity |].
    unfold compare_branch in E.
    destruct (Z.gtb_spec (wrap16 (timerTicks s + 1)) (clock_rate s));
      [discriminate | lia].
Qed.

Lemma inv_isr (s : machine) : inv s -> inv (isr s).
Proof.
  unfold inv. intros (Hr & Hd & Ht & Hc & Hp).
  rewrite isr_clock_rate, isr_clock_direction.
  split; [exact Hr |]. split; [exact Hd |].
  split; [| split; [apply isr_two_bit_counter_range | apply isr_PORTB_range];
            assumption].
  pose proof (wrap16_range (timerTicks s + 1)).
  unfold RATE_FAST, RATE_NORMAL in *.
  destruct (isr_ticks_cases s) as [[_ H0] | (_ & H1 & H2)]; lia.
Qed.

Lemma reachable_inv (s : machine) : reachable s -> inv s.
Proof.
  induction 1 as [| s _ IH | s _ IH | s _ IH | s _ IH | s _ IH].
  - apply inv_boot.
  - apply inv_isr. assumption.
  - destruct IH as (_ & Hd & Ht). split; [left; reflexivity |].
    split; assumption.
  - destruct IH as (_ & Hd & Ht). split; [right; reflexivity |].
    split; assumption.
  - destruct IH as (Hr & _ & Ht). split; [exact Hr |].
    split; [left; reflexivity | exact Ht].
  - destruct IH as (Hr & _ & Ht). split; [exact Hr |].
    split; [right; reflexivity | exact Ht].
Qed.

Lemma reachable_run (n : nat) :
  forall s : machine, reachable s -> reachable (run n s).
Proof.
  induction n as [| n IH]; intros s Hs.
  - exact Hs.
  - cbn [run]. apply IH. apply reach_isr. exact Hs.
Qed.

(** C5, as the routine is written: the phase counter is an 8-bit variable
    that is stepped without masking.  It is 0 at initialization and stays
    within 0..255 in every reachable state, under either direction; what is
    always in {0,1,2,3} is its low two bits, the only part stored to the
    output lines. *)
Theorem phase_counter_is_a_byte (s : machine) :
  reachable s ->
  two_bit_counter boot = 0 /\
  0 <= two_bit_counter s <= 255 /\
  0 <= two_bit_counter (isr s) <= 255 /\
  0 <= phase s <= 3 /\
  0 <= phase (isr s) <= 3.
Proof.
  intros Hs. split; [reflexivity |].
  pose proof (reachable_inv s Hs) as (_ & _ & _ & Hc & _).
  pose proof (isr_two_bit_counter_range s Hc).
  pose proof (phase_range s). pose proof (phase_range (isr s)). lia.
Qed.

Lemma phase_counter_is_a_byte_witness :
  0 <= two_bit_counter (run 3 boot) <= 255 /\ 0 <= phase (run 3 boot) <= 3.
Proof.
  destruct (phase_counter_is_a_byte (run 3 boot)
              (reachable_run 3 boot reach_boot))
    as (_ & Hc & _ & Hp & _).
  split; assumption.
Defined.

(** C5 as stated fails: three interrupts after [boot] the first Forward
    step has taken the variable from 0 to 255. *)
Lemma phase_counter_leaves_0_to_3 :
  reachable (run 3 boot) /\
  two_bit_counter (run 3 boot) = 255 /\
  ~ (0 <= two_bit_counter (run 3 boot) <= 3).
Proof.
  split; [apply reachable_run; apply reach_boot |].
  split; [reflexivity |].
  change (two_bit_counter (run 3 boot)) with 255. lia.
Qed.

(** C6: in every reachable state, whichever of the two thresholds, Fast = 0
    or Normal = 2, the rate holds, the tick counter on leaving the compare
    branch of an invocation is strictly below threshold + 1: the invocation
    has added one to it, and has put it back to 0 if that exceeded the
    threshold. *)
Theorem ticks_below_threshold_plus_one (s : machine) (T : Z) :
  reachable s ->
  T = RATE_FAST \/ T = RATE_NORMAL ->
  clock_rate s = T ->
  0 <= timerTicks (isr s) < T + 1 /\
  (compare_branch s = true <-> timerTicks s + 1 > T) /\
  (timerTicks s + 1 > T -> timerTicks (isr s) = 0) /\
  (timerTicks s + 1 <= T -> timerTicks (isr s) = timerTicks s + 1).
Proof.
  intros Hs HT Hr.
  pose proof (reachable_inv s Hs) as (_ & _ & Ht & _).
  assert (wrap16 (timerTicks s + 1) = timerTicks s + 1) as Hw
      by (apply wrap16_small; unfold RATE_NORMAL in Ht; lia).
  assert (compare_branch s = true <-> timerTicks s + 1 > T) as Hb.
  { unfold compare_branch. rewrite Hw, Hr.
    destruct (Z.gtb_spec (timerTicks s + 1) T); split; intros; try lia;
      try reflexivity; discriminate. }
  assert (0 <= T) by (unfold RATE_FAST, RATE_NORMAL in HT; lia).
  destruct (isr_ticks_cases s) as [[Hc H0] | (Hc & H1 & H2)].
  - apply Hb in Hc. repeat split; try tauto; lia.
  - rewrite Hw in *. rewrite Hr in H2.
    split; [lia |]. split; [exact Hb |]. split; intros; lia.
Qed.

Lemma ticks_below_threshold_plus_one_witness :
  0 <= timerTicks (isr (set_clock_rate RATE_FAST before_first_step))
    < RATE_FAST + 1.
Proof.
  refine (proj1 (ticks_below_threshold_plus_one
                   (set_clock_rate RATE_FAST before_first_step) RATE_FAST
                   _ _ _)).
  - apply reach_rate_fast. apply (reachable_run 2 boot reach_boot).
  - left. reflexivity.
  - reflexivity.
Defined.

(** ** The output port *)

Lemma testbit_FC (i : Z) : 2 <= i <= 7 -> Z.testbit 0xFC i = true.
Proof.
  intros Hi. rewrite mask_FC, Z.ldiff_spec, !Z.testbit_ones_nonneg by lia.
  destruct (Z.ltb_spec i 8), (Z.ltb_spec i 2); try reflexivity; lia.
Qed.

Lemma land_FC_testbit (x y i : Z) :
  Z.land x 0xFC = Z.land y 0xFC ->
  2 <= i <= 7 ->
  Z.testbit x i = Z.testbit y i.
Proof.
  intros Hxy Hi.
  assert (Z.testbit (Z.land x 0xFC) i = Z.testbit (Z.land y 0xFC) i) as H
      by (rewrite Hxy; reflexivity).
  rewrite !Z.land_spec, (testbit_FC i Hi), !andb_true_r in H. exact H.
Qed.

Lemma isr_PORTB_high (s : machine) :
  Z.land (PORTB (isr s)) 0xFC = Z.land (PORTB s) 0xFC.
Proof.
  unfold isr. destruct (compare_branch s) eqn:E.
  - rewrite (ISR_taken s E). apply merged_port_high.
  - rewrite (ISR_idle s E). reflexivity.
Qed.

(** C7: bits 2..7 of the output port are the same on return from the
    interrupt routine as on entry.  An invocation that makes a transition
    stores to the port exactly once, the byte being the old one with only
    bits 0..1 replaced; an invocation that makes none does not store to the
    port. *)
Theorem isr_keeps_upper_port_bits (s : machine) :
  Z.land (PORTB (isr s)) 0xFC = Z.land (PORTB s) 0xFC /\
  (forall i : Z, 2 <= i <= 7 ->
     Z.testbit (PORTB (isr s)) i = Z.testbit (PORTB s) i) /\
  (compare_branch s = true ->
     isr_io s = [PortbWrite (PORTB (isr s))] /\
     PORTB (isr s) =
       Z.lor (Z.land (PORTB s) 0xFC) (Z.land (two_bit_counter s) 0x03)) /\
  (compare_branch s = false ->
     isr_io s = [] /\ PORTB (isr s) = PORTB s).
Proof.
  split; [apply isr_PORTB_high |].
  split; [intros i Hi; apply land_FC_testbit;
          [apply isr_PORTB_high | exact Hi] |].
  unfold isr, isr_io. split; intros E.
  - rewrite (ISR_taken s E). cbn [fst snd PORTB].
    split; [reflexivity | apply merged_port_no_wrap].
  - rewrite (ISR_idle s E). split; reflexivity.
Qed.

Lemma isr_keeps_upper_port_bits_witness :
  Z.testbit (PORTB (isr before_first_step)) 4 =
    Z.testbit (PORTB before_first_step) 4 /\
  isr_io boot = [] /\ PORTB (isr boot) = PORTB boot.
Proof.
  split.
  - apply (proj1 (proj2 (isr_keeps_upper_port_bits before_first_step))). lia.
  - apply (proj2 (proj2 (proj2 (isr_keeps_upper_port_bits boot)))).
    reflexivity.
Defined.

(** ** The rate and direction arbiter *)

(** C8: when the pass reads both push-buttons pressed (both bits of PINB
    at 0), it leaves the rate at Fast and the direction at Forward, whatever
    the state before. *)
Theorem arbiter_both_pressed (pinb1 pinb2 : Z) (s : machine) :
  Z.land pinb1 BUTTON_FAST_FWD = 0 ->
  Z.land pinb1 BUTTON_FAST_REV = 0 ->
  clock_rate (arbiter pinb1 pinb2 s) = RATE_FAST /\
  clock_direction (arbiter pinb1 pinb2 s) = DIR_FWD.
Proof.
  intros Hf _. unfold arbiter. rewrite Hf. cbn [Z.eqb].
  split; reflexivity.
Qed.

Lemma arbiter_both_pressed_witness :
  clock_rate (arbiter 0x08 0x08 (mkMachine 1 DIR_REV RATE_NORMAL 7 0x14))
    = RATE_FAST /\
  clock_direction (arbiter 0x08 0x08 (mkMachine 1 DIR_REV RATE_NORMAL 7 0x14))
    = DIR_FWD.
Proof.
  apply (arbiter_both_pressed 0x08 0x08); reflexivity.
Defined.

(** C9: when the pass reads both push-buttons released (the Fast-Forward
    bit at 1 in the first read of PINB and the Fast-Reverse bit at 1 in the
    second), it leaves the rate at Normal and the direction at Forward,
    whatever the state before. *)
Theorem arbiter_both_released (pinb1 pinb2 : Z) (s : machine) :
  Z.land pinb1 BUTTON_FAST_FWD <> 0 ->
  Z.land pinb2 BUTTON_FAST_REV <> 0 ->
  clock_rate (arbiter pinb1 pinb2 s) = RATE_NORMAL /\
  clock_direction (arbiter pinb1 pinb2 s) = DIR_FWD.
Proof.
  intros Hf Hr. unfold arbiter.
  destruct (Z.eqb_spec (Z.land pinb1 BUTTON_FAST_FWD) 0); [contradiction |].
  destruct (Z.eqb_spec (Z.land pinb2 BUTTON_FAST_REV) 0); [contradiction |].
  split; reflexivity.
Qed.

Lemma arbiter_both_released_witness :
  clock_rate (arbiter 0x1C 0x1C (mkMachine 0 DIR_REV RATE_FAST 5 0x17))
    = RATE_NORMAL /\
  clock_direction (arbiter 0x1C 0x1C (mkMachine 0 DIR_REV RATE_FAST 5 0x17))
    = DIR_FWD.
Proof.
  apply (arbiter_both_released 0x1C 0x1C); vm_compute; discriminate.
Defined.

(** The three outcomes of a pass. *)
Lemma arbiter_outcomes (pinb1 pinb2 : Z) (s : machine) :
  (clock_rate (arbiter pinb1 pinb2 s) = RATE_FAST /\
   clock_direction (arbiter pinb1 pinb2 s) = DIR_FWD) \/
  (clock_rate (arbiter pinb1 pinb2 s) = RATE_FAST /\
   clock_direction (arbiter pinb1 pinb2 s) = DIR_REV) \/
  (clock_rate (arbiter pinb1 pinb2 s) = RATE_NORMAL /\
   clock_direction (arbiter pinb1 pinb2 s) = DIR_FWD).
Proof.
  unfold arbiter.
  destruct (Z.land pinb1 BUTTON_FAST_FWD =? 0);
    [| destruct (Z.land pinb2 BUTTON_FAST_REV =? 0)].
  - left. split; reflexivity.
  - right. left. split; reflexivity.
  - right. right. split; reflexivity.
Qed.

Lemma settled_normal_forward (s : machine) :
  settled s -> clock_rate s = RATE_NORMAL -> clock_direction s = DIR_FWD.
Proof.
  induction 1 as [| s _ IH | pinb1 pinb2 s _ _].
  - reflexivity.
  - rewrite isr_clock_rate, isr_clock_direction. exact IH.
  - destruct (arbiter_outcomes pinb1 pinb2 s) as [[Hr Hd] | [[Hr Hd] | [Hr Hd]]];
      rewrite Hr, Hd; unfold RATE_FAST, RATE_NORMAL; intros; try reflexivity;
      discriminate.
Qed.

Lemma settled_reachable (s : machine) : settled s -> reachable s.
Proof.
  induction 1 as [| s _ IH | pinb1 pinb2 s _ IH].
  - apply reach_boot.
  - apply reach_isr. exact IH.
  - unfold arbiter.
    destruct (Z.land pinb1 BUTTON_FAST_FWD =? 0);
      [| destruct (Z.land pinb2 BUTTON_FAST_REV =? 0)].
    + apply reach_dir_fwd, reach_rate_fast, IH.
    + apply reach_dir_rev, reach_rate_fast, IH.
    + apply reach_dir_fwd, reach_rate_normal, IH.
Qed.

(** Inside a pass the pairing is not kept: after a pass that read
    Fast-Reverse pressed, the next pass with both buttons released stores
    the rate first, and until it stores the direction the variables read
    (Normal, Reverse). *)
Lemma normal_reverse_between_stores :
  let s := set_clock_rate RATE_NORMAL (arbiter 0x0C 0x0C boot) in
  reachable s /\
  clock_rate s = RATE_NORMAL /\
  clock_direction s = DIR_REV /\
  arbiter 0x1C 0x1C (arbiter 0x0C 0x0C boot) = set_clock_direction DIR_FWD s.
Proof.
  split; [| split; [| split]; reflexivity].
  apply reach_rate_normal.
  apply (reach_dir_rev _ (reach_rate_fast _ reach_boot)).
Qed.

(** C10: at initialization and after every complete pass of the loop the
    rate Normal comes with the direction Forward.  A pass ends in one of
    (Fast, Forward), (Fast, Reverse), (Normal, Forward) and never in
    (Normal, Reverse); the interrupt routine writes neither variable, so the
    same holds with any number of interrupts between passes. *)
Theorem normal_rate_implies_forward :
  (clock_rate boot = RATE_NORMAL /\ clock_direction boot = DIR_FWD) /\
  (forall (pinb1 pinb2 : Z) (s : machine),
     let s' := arbiter pinb1 pinb2 s in
     ((clock_rate s' = RATE_FAST /\ clock_direction s' = DIR_FWD) \/
      (clock_rate s' = RATE_FAST /\ clock_direction s' = DIR_REV) \/
      (clock_rate s' = RATE_NORMAL /\ clock_direction s' = DIR_FWD)) /\
     ~ (clock_rate s' = RATE_NORMAL /\ clock_direction s' = DIR_REV)) /\
  (forall s : machine,
     clock_rate (isr s) = clock_rate s /\
     clock_direction (isr s) = clock_direction s) /\
  (forall s : machine,
     settled s -> clock_rate s = RATE_NORMAL -> clock_direction s = DIR_FWD).
Proof.
  split; [split; reflexivity |].
  split.
  - intros pinb1 pinb2 s s'. split; [apply arbiter_outcomes |].
    intros [Hr Hd].
    destruct (arbiter_outcomes pinb1 pinb2 s) as [[Hr' Hd'] | [[Hr' Hd'] | [Hr' Hd']]];
      fold s' in Hr', Hd'; rewrite ?Hr' in Hr; rewrite ?Hd' in Hd; discriminate.
  - split.
    + intros s. split; [apply isr_clock_rate | apply isr_clock_direction].
    + exact settled_normal_forward.
Qed.

Lemma normal_rate_implies_forward_witness :
  clock_direction (isr (arbiter 0x1C 0x1C (arbiter 0x0C 0x0C boot))) = DIR_FWD.
Proof.
  apply (proj2 (proj2 (proj2 normal_rate_implies_forward))).
  - apply settled_isr. apply settled_pass. apply settled_pass.
    apply settled_boot.
  - reflexivity.
Defined.

(** ** Further properties of the interrupt routine *)

Lemma isr_timerTicks (s : machine) :
  timerTicks (isr s) =
    if compare_branch s then 0 else wrap16 (timerTicks s + 1).
Proof.
  unfold isr. destruct (compare_branch s) eqn:E.
  - rewrite (ISR_taken s E). reflexivity.
  - rewrite (ISR_idle s E). reflexivity.
Qed.

Lemma isr_two_bit_counter (s : machine) :
  two_bit_counter (isr s) =
    if compare_branch s
    then step_counter (clock_direction s) (two_bit_counter s)
    else two_bit_counter s.
Proof.
  unfold isr. destruct (compare_branch s) eqn:E.
  - rewrite (ISR_taken s E). reflexivity.
  - rewrite (ISR_idle s E). reflexivity.
Qed.

Lemma isr_PORTB (s : machine) :
  PORTB (isr s) =
    if compare_branch s
    then merged_port (PORTB s) (two_bit_counter s)
    else PORTB s.
Proof.
  unfold isr. destruct (compare_branch s) eqn:E.
  - rewrite (ISR_taken s E). reflexivity.
  - rewrite (ISR_idle s E). reflexivity.
Qed.

Lemma run_clock_rate (n : nat) :
  forall s : machine, clock_rate (run n s) = clock_rate s.
Proof.
  induction n as [| n IH]; intros s; [reflexivity |].
  cbn [run]. rewrite IH. apply isr_clock_rate.
Qed.

Lemma run_clock_direction (n : nat) :
  forall s : machine, clock_direction (run n s) = clock_direction s.
Proof.
  induction n as [| n IH]; intros s; [reflexivity |].
  cbn [run]. rewrite IH. apply isr_clock_direction.
Qed.

Lemma byte_split (p : Z) :
  wrap8 p = Z.lor (Z.land p 0xFC) (Z.land p 0x03).
Proof. bitwise. Qed.

Lemma land_within_FC (p m : Z) :
  Z.land 0xFC m = m -> Z.land p m = Z.land (Z.land p 0xFC) m.
Proof. intros Hm. rewrite <- Z.land_assoc, Hm. reflexivity. Qed.

Lemma reachable_PORTB_high (s : machine) :
  reachable s -> Z.land (PORTB s) 0xFC = PB_PUP_INIT.
Proof.
  induction 1 as [| s _ IH | s _ IH | s _ IH | s _ IH | s _ IH];
    try exact IH.
  - reflexivity.
  - rewrite isr_PORTB_high. exact IH.
Qed.

(** The pull-ups that [ioinit] turns on for the two push-button pins are on
    in every reachable state: the interrupt routine, the only code that
    stores to the port afterwards, leaves bits 2..7 as [ioinit] set them, so
    the port always reads the pull-up pattern with the last stored phase in
    bits 0..1. *)
Theorem pull_ups_stay_enabled (s : machine) :
  reachable s ->
  Z.land (PORTB s) BUTTON_FAST_FWD = BUTTON_FAST_FWD /\
  Z.land (PORTB s) BUTTON_FAST_REV = BUTTON_FAST_REV /\
  Z.land (PORTB s) 0xFC = Z.lor PB_INIT PB_PUP_INIT /\
  PORTB s = Z.lor PB_PUP_INIT (Z.land (PORTB s) 0x03).
Proof.
  intros Hs. pose proof (reachable_PORTB_high s Hs) as Hh.
  split; [rewrite (land_within_FC _ BUTTON_FAST_FWD), Hh; reflexivity |].
  split; [rewrite (land_within_FC _ BUTTON_FAST_REV), Hh; reflexivity |].
  split; [exact Hh |].
  pose proof (reachable_inv s Hs) as (_ & _ & _ & _ & Hp).
  rewrite <- Hh, <- byte_split. unfold wrap8.
  rewrite Z.mod_small by exact Hp. reflexivity.
Qed.

Lemma pull_ups_stay_enabled_witness :
  Z.land (PORTB (run 7 boot)) BUTTON_FAST_FWD = BUTTON_FAST_FWD /\
  Z.land (PORTB (run 7 boot)) BUTTON_FAST_REV = BUTTON_FAST_REV.
Proof.
  destruct (pull_ups_stay_enabled (run 7 boot)
              (reachable_run 7 boot reach_boot)) as (Hf & Hr & _).
  split; assumption.
Defined.

(** The output lines are never more than one step away from the phase
    counter.  In every reachable state either nothing has been stepped yet
    (counter and output bits both 0), or the counter's low two bits are the
    output bits moved by exactly one step, up or down: the port shows the
    phase the counter had before its last step. *)
Theorem port_one_step_behind (s : machine) :
  reachable s ->
  (two_bit_counter s = 0 /\ Z.land (PORTB s) 0x03 = 0) \/
  phase s = (Z.land (PORTB s) 0x03 + 1) mod 4 \/
  phase s = (Z.land (PORTB s) 0x03 - 1) mod 4.
Proof.
  induction 1 as [| s _ IH | s _ IH | s _ IH | s _ IH | s _ IH];
    try exact IH.
  - left. split; reflexivity.
  - unfold phase in *. rewrite isr_two_bit_counter, isr_PORTB.
    destruct (compare_branch s); [| exact IH].
    right. rewrite merged_port_low.
    destruct (Z.eqb_spec (clock_direction s) DIR_FWD) as [E | E].
    + right. rewrite E. apply phase_step_counter_fwd.
    + left. apply phase_step_counter_rev. exact E.
Qed.

Lemma port_one_step_behind_witness :
  phase (run 6 boot) = (Z.land (PORTB (run 6 boot)) 0x03 - 1) mod 4.
Proof.
  destruct (port_one_step_behind (run 6 boot)
              (reachable_run 6 boot reach_boot)) as [[H0 _] | [H1 | H2]].
  - discriminate H0.
  - discriminate H1.
  - exact H2.
Defined.

(** With the threshold at the largest 16-bit value the divider never fires:
    the tick counter wraps from 65535 to 0 before it is compared, so no
    number of interrupts steps the phase counter or stores to the port. *)
Theorem threshold_max_never_steps (N : nat) (s : machine) :
  clock_rate s = 65535 ->
  run_io N s = [] /\
  two_bit_counter (run N s) = two_bit_counter s /\
  PORTB (run N s) = PORTB s.
Proof.
  revert s. induction N as [| N IH]; intros s Hr.
  - repeat split.
  - cbn [run run_io].
    pose proof (compare_branch_never_at_max s Hr) as E.
    destruct (IH (isr s)) as (Hio & Hc & Hp);
      [rewrite isr_clock_rate; exact Hr |].
    rewrite Hio, Hc, Hp, isr_two_bit_counter, isr_PORTB.
    unfold isr_io. rewrite (ISR_idle s E), E. repeat split.
Qed.

Lemma threshold_max_never_steps_witness :
  run_io 12 (set_clock_rate 65535 boot) = [].
Proof.
  apply (proj1 (threshold_max_never_steps 12 (set_clock_rate 65535 boot)
                  eq_refl)).
Defined.

(** *** The sequence of output states *)

Lemma merged_port_absorb (p c c' : Z) :
  merged_port (merged_port p c) c' = merged_port p c'.
Proof. unfold merged_port. bitwise. Qed.

Lemma land_03_step (c d k : Z) :
  Z.land (wrap8 (c + d) + d * k) 0x03 = Z.land (c + d * (k + 1)) 0x03.
Proof.
  rewrite !land_03_mod4, <- Zplus_mod_idemp_l, wrap8_mod4, Zplus_mod_idemp_l.
  f_equal. lia.
Qed.

Lemma nth_store_shift (p c d : Z) (k : nat) :
  nth_store (merged_port p c) (step_counter d c) d k = nth_store p c d (S k).
Proof.
  unfold nth_store. rewrite merged_port_high, step_counter_direction_step.
  rewrite land_03_step, Nat2Z.inj_succ. unfold Z.succ. reflexivity.
Qed.

Lemma nth_store_0 (p c d : Z) :
  nth_store p c d 0 = PortbWrite (merged_port p c).
Proof.
  unfold nth_store. cbn [Z.of_nat].
  rewrite Z.mul_0_r, Z.add_0_r, merged_port_no_wrap. reflexivity.
Qed.

(** From any tick count within the threshold, the stores of [n] invocations
    are the first [(n + k) / (T + 1)] entries of the sequence. *)
Lemma run_io_from (T : Z) (n : nat) :
  0 <= T < 65535 ->
  forall s : machine,
    clock_rate s = T ->
    0 <= timerTicks s <= T ->
    run_io n s =
      map (nth_store (PORTB s) (two_bit_counter s) (clock_direction s))
        (seq 0 (Z.to_nat ((Z.of_nat n + timerTicks s) / (T + 1)))).
Proof.
  intros HT. induction n as [| n IH]; intros s Hr Hk.
  - cbn [run_io Z.of_nat]. rewrite Z.add_0_l, Z.div_small by lia. reflexivity.
  - cbn [run_io]. rewrite IH.
    + rewrite isr_clock_direction, isr_PORTB, isr_two_bit_counter.
      rewrite (isr_ticks_at T HT s Hr Hk). unfold isr_io.
      pose proof (compare_branch_at T HT s Hr Hk) as Hb.
      destruct (Z.eqb_spec (timerTicks s) T) as [E | E].
      * rewrite (ISR_taken s Hb), Hb. cbn [snd].
        rewrite E, Z.mod_same, Z.add_0_r by lia.
        replace (Z.of_nat (S n) + T) with (Z.of_nat n + 1 * (T + 1)) by lia.
        rewrite Z.div_add by lia.
        rewrite Z2Nat.inj_add by (try apply Z.div_pos; lia).
        change (Z.to_nat 1) with 1%nat. rewrite Nat.add_1_r.
        cbn [seq map app]. rewrite nth_store_0. f_equal.
        rewrite <- seq_shift, map_map. apply map_ext.
        intros k. apply nth_store_shift.
      * rewrite (ISR_idle s Hb), Hb. cbn [snd app].
        rewrite Z.mod_small by lia.
        replace (Z.of_nat (S n) + timerTicks s)
          with (Z.of_nat n + (timerTicks s + 1)) by lia.
        reflexivity.
    + rewrite isr_clock_rate. exact Hr.
    + rewrite (isr_ticks_at T HT s Hr Hk).
      assert (0 < T + 1) as HT1 by lia.
      pose proof (Z.mod_pos_bound (timerTicks s + 1) (T + 1) HT1). lia.
Qed.

(** What the motor driver sees.  With the tick counter at 0 and the rate
    and direction held, the bytes stored to the port by N interrupts are
    exactly floor(N / (T+1)) in number, and the k-th of them carries the
    unchanged upper six bits of the port with the phase (c + d*k) mod 4,
    where c is the phase counter at the start and d is -1 under Forward and
    +1 otherwise: consecutive stores are one phase apart, always in the same
    direction. *)
Theorem port_store_sequence (N : nat) (T : Z) (s : machine) :
  0 <= T < 65535 ->
  clock_rate s = T ->
  timerTicks s = 0 ->
  run_io N s =
    map (nth_store (PORTB s) (two_bit_counter s) (clock_direction s))
      (seq 0 (Z.to_nat (Z.of_nat N / (T + 1)))).
Proof.
  intros HT Hr Hk.
  rewrite (run_io_from T N HT s Hr) by lia.
  rewrite Hk, Z.add_0_r. reflexivity.
Qed.

Lemma port_store_sequence_witness :
  run_io 9 boot =
    [PortbWrite 0x14; PortbWrite 0x17; PortbWrite 0x16].
Proof.
  rewrite (port_store_sequence 9 RATE_NORMAL boot);
    [reflexivity | unfold RATE_NORMAL; lia | reflexivity | reflexivity].
Defined.

Lemma phase_run (N : nat) (T : Z) (s : machine) :
  0 <= T < 65535 ->
  clock_rate s = T ->
  timerTicks s = 0 ->
  0 <= two_bit_counter s < 256 ->
  phase (run N s) =
    (two_bit_counter s
     + direction_step (clock_direction s) * (Z.of_nat N / (T + 1))) mod 4.
Proof.
  intros HT Hr Hk Hc. unfold phase.
  rewrite run_two_bit_counter by exact Hc.
  rewrite (transitions_from T HT N s Hr) by lia.
  rewrite Hk, Z.add_0_r, land_03_mod4, wrap8_mod4. reflexivity.
Qed.

Lemma direction_step_cases (d : Z) :
  direction_step d = -1 \/ direction_step d = 1.
Proof. unfold direction_step. destruct (d =? DIR_FWD); auto. Qed.

Lemma four_phase_cycle (x d : Z) (j : nat) :
  0 <= x <= 3 ->
  d = -1 \/ d = 1 ->
  (0 < j < 4)%nat ->
  (x + d * Z.of_nat j) mod 4 <> x.
Proof.
  intros Hx Hd Hj.
  assert (x = 0 \/ x = 1 \/ x = 2 \/ x = 3) as Hx' by lia.
  assert (j = 1 \/ j = 2 \/ j = 3)%nat as Hj' by lia.
  destruct Hd as [-> | ->];
    destruct Hx' as [-> | [-> | [-> | ->]]];
    destruct Hj' as [-> | [-> | ->]];
    vm_compute; discriminate.
Qed.

(** The output cycles through exactly four phases.  With the rate and
    direction held and the tick counter at 0, j further periods of T+1
    interrupts move the phase by j steps modulo 4: after one, two or three
    periods the phase differs from where it was, and after four it is back. *)
Theorem phase_cycle_has_period_four (N j : nat) (T : Z) (s : machine) :
  0 <= T < 65535 ->
  clock_rate s = T ->
  timerTicks s = 0 ->
  0 <= two_bit_counter s < 256 ->
  let P := Z.to_nat (T + 1) in
  phase (run (N + j * P) s) =
    (phase (run N s) + direction_step (clock_direction s) * Z.of_nat j) mod 4 /\
  phase (run (N + 4 * P) s) = phase (run N s) /\
  ((0 < j < 4)%nat -> phase (run (N + j * P) s) <> phase (run N s)).
Proof.
  intros HT Hr Hk Hc P.
  assert (forall i : nat,
             phase (run (N + i * P) s) =
               (phase (run N s)
                + direction_step (clock_direction s) * Z.of_nat i) mod 4) as H.
  { intros i. rewrite !(phase_run _ T s HT Hr Hk Hc).
    rewrite Nat2Z.inj_add, Nat2Z.inj_mul. unfold P.
    rewrite Z2Nat.id, Z.div_add, Zplus_mod_idemp_l by lia.
    f_equal. lia. }
  split; [apply H |]. split.
  - rewrite H. replace (direction_step (clock_direction s) * Z.of_nat 4)
      with (direction_step (clock_direction s) * 4) by reflexivity.
    rewrite Z_mod_plus_full. apply Z.mod_small.
    pose proof (phase_range (run N s)). lia.
  - intros Hj. rewrite H. apply four_phase_cycle.
    + apply phase_range.
    + apply direction_step_cases.
    + exact Hj.
Qed.

Lemma phase_cycle_has_period_four_witness :
  phase (run (1 + 4 * 3) boot) = phase (run 1 boot) /\
  phase (run (1 + 2 * 3) boot) <> phase (run 1 boot).
Proof.
  assert (0 <= RATE_NORMAL < 65535) as HT by (unfold RATE_NORMAL; lia).
  assert (0 <= two_bit_counter boot < 256) as Hc
      by (change (two_bit_counter boot) with 0; lia).
  destruct (phase_cycle_has_period_four 1 2 RATE_NORMAL boot HT eq_refl
              eq_refl Hc) as (_ & H4 & Hj).
  split; [exact H4 | apply Hj; lia].
Defined.

Lemma run_ticks_at (T : Z) (n : nat) :
  0 <= T < 65535 ->
  forall s : machine,
    clock_rate s = T ->
    0 <= timerTicks s <= T ->
    timerTicks (run n s) = (Z.of_nat n + timerTicks s) mod (T + 1).
Proof.
  intros HT. induction n as [| n IH]; intros s Hr Hk.
  - cbn [run Z.of_nat]. rewrite Z.add_0_l, Z.mod_small by lia. reflexivity.
  - cbn [run]. assert (0 < T + 1) as HT1 by lia.
    pose proof (Z.mod_pos_bound (timerTicks s + 1) (T + 1) HT1).
    rewrite IH.
    + rewrite (isr_ticks_at T HT s Hr Hk), Zplus_mod_idemp_r.
      f_equal. lia.
    + rewrite isr_clock_rate. exact Hr.
    + rewrite (isr_ticks_at T HT s Hr Hk). lia.
Qed.

(** [m] whole periods of interrupts under direction [d1] followed by as
    many under the opposite direction [d2]. *)
Lemma there_and_back (m : nat) (T d1 d2 : Z) (s : machine) :
  0 <= T < 65535 ->
  clock_rate s = T ->
  timerTicks s = 0 ->
  0 <= two_bit_counter s < 256 ->
  direction_step d1 + direction_step d2 = 0 ->
  let N := (m * Z.to_nat (T + 1))%nat in
  let there := run N (set_clock_direction d1 s) in
  let back := run N (set_clock_direction d2 there) in
  two_bit_counter there =
    wrap8 (two_bit_counter s + direction_step d1 * Z.of_nat m) /\
  two_bit_counter back = two_bit_counter s /\
  timerTicks back = 0.
Proof.
  intros HT Hr Hk Hc Hd N there back.
  assert (Z.of_nat N = Z.of_nat m * (T + 1)) as HN
      by (unfold N; rewrite Nat2Z.inj_mul, Z2Nat.id by lia; reflexivity).
  assert (timerTicks there = 0) as Hk1.
  { unfold there. rewrite (run_ticks_at T N HT) by (cbn; lia).
    cbn [timerTicks set_clock_direction].
    rewrite Hk, Z.add_0_r, HN. apply Z_mod_mult. }
  assert (clock_rate there = T) as Hr1
      by (unfold there; rewrite run_clock_rate; exact Hr).
  assert (two_bit_counter there =
            wrap8 (two_bit_counter s + direction_step d1 * Z.of_nat m)) as Hc1.
  { unfold there. rewrite run_two_bit_counter by exact Hc.
    rewrite (transitions_from T HT N) by (cbn; lia).
    cbn [timerTicks set_clock_direction two_bit_counter clock_direction].
    rewrite Hk, Z.add_0_r, HN, Z.div_mul by lia. reflexivity. }
  split; [exact Hc1 |]. split.
  - unfold back. rewrite run_two_bit_counter
      by (cbn [two_bit_counter set_clock_direction]; rewrite Hc1;
          apply wrap8_range).
    rewrite (transitions_from T HT N) by (cbn; lia).
    cbn [timerTicks set_clock_direction two_bit_counter clock_direction].
    rewrite Hk1, Z.add_0_r, HN, Z.div_mul, Hc1 by lia.
    unfold wrap8. rewrite Zplus_mod_idemp_l.
    replace (two_bit_counter s + direction_step d1 * Z.of_nat m
             + direction_step d2 * Z.of_nat m)
      with (two_bit_counter s
            + (direction_step d1 + direction_step d2) * Z.of_nat m) by lia.
    rewrite Hd, Z.mul_0_l, Z.add_0_r. apply Z.mod_small. exact Hc.
  - unfold back. rewrite (run_ticks_at T N HT) by (cbn; lia).
    cbn [timerTicks set_clock_direction].
    rewrite Hk1, Z.add_0_r, HN. apply Z_mod_mult.
Qed.

(** Adjusting forward and then backward by the same amount returns the
    mechanism to where it was.  From a tick counter at 0, m whole periods of
    interrupts under Forward followed by m whole periods under Reverse leave
    the 8-bit phase counter at its starting value and the tick counter at 0;
    the same holds with Reverse first. *)
Theorem forward_reverse_round_trip (m : nat) (T : Z) (s : machine) :
  0 <= T < 65535 ->
  clock_rate s = T ->
  timerTicks s = 0 ->
  0 <= two_bit_counter s < 256 ->
  let N := (m * Z.to_nat (T + 1))%nat in
  let fwd := run N (set_clock_direction DIR_FWD s) in
  let rev := run N (set_clock_direction DIR_REV s) in
  two_bit_counter fwd = wrap8 (two_bit_counter s - Z.of_nat m) /\
  two_bit_counter (run N (set_clock_direction DIR_REV fwd)) =
    two_bit_counter s /\
  two_bit_counter rev = wrap8 (two_bit_counter s + Z.of_nat m) /\
  two_bit_counter (run N (set_clock_direction DIR_FWD rev)) =
    two_bit_counter s.
Proof.
  intros HT Hr Hk Hc N fwd rev.
  destruct (there_and_back m T DIR_FWD DIR_REV s HT Hr Hk Hc eq_refl)
    as (H1 & H2 & _).
  destruct (there_and_back m T DIR_REV DIR_FWD s HT Hr Hk Hc eq_refl)
    as (H3 & H4 & _).
  fold N in H1, H2, H3, H4. fold fwd in H1, H2. fold rev in H3, H4.
  split; [rewrite H1; f_equal; change (direction_step DIR_FWD) with (-1); lia |].
  split; [exact H2 |].
  split; [rewrite H3; f_equal; change (direction_step DIR_REV) with 1; lia |].
  exact H4.
Qed.

Lemma forward_reverse_round_trip_witness :
  two_bit_counter
    (run 15 (set_clock_direction DIR_REV
               (run 15 (set_clock_direction DIR_FWD boot)))) = 0.
Proof.
  assert (0 <= RATE_NORMAL < 65535) as HT by (unfold RATE_NORMAL; lia).
  assert (0 <= two_bit_counter boot < 256) as Hc
      by (change (two_bit_counter boot) with 0; lia).
  exact (proj1 (proj2 (forward_reverse_round_trip 5 RATE_NORMAL boot HT
                         eq_refl eq_refl Hc))).
Defined.

(** A step is never further away than the current period.  In every
    reachable state, whatever the tick counter holds after a change of rate,
    the next (clock_rate + 1) interrupts contain at least one transition;
    in particular the first interrupt after a switch to Fast steps the
    motor. *)
Theorem step_within_one_period (s : machine) :
  reachable s ->
  (1 <= transitions (Z.to_nat (clock_rate s) + 1) s)%nat /\
  (clock_rate s = RATE_FAST -> compare_branch s = true).
Proof.
  intros Hs. pose proof (reachable_inv s Hs) as (Hr & _ & Ht & _).
  unfold RATE_NORMAL in Ht.
  assert (clock_rate s = RATE_FAST -> compare_branch s = true) as Hfast.
  { intros E. unfold compare_branch. rewrite E, wrap16_small by lia.
    unfold RATE_FAST. destruct (Z.gtb_spec (timerTicks s + 1) 0);
      [reflexivity | lia]. }
  split; [| exact Hfast].
  destruct Hr as [E | E].
  - rewrite E. change (Z.to_nat RATE_FAST + 1)%nat with 1%nat.
    rewrite transitions_S, (Hfast E). apply Nat.le_add_r.
  - apply Nat2Z.inj_le.
    assert (0 <= clock_rate s < 65535) as HT
        by (rewrite E; unfold RATE_NORMAL; lia).
    rewrite (transitions_from (clock_rate s) HT _ s eq_refl)
      by (rewrite E; unfold RATE_NORMAL; lia).
    rewrite E. change (Z.of_nat (Z.to_nat RATE_NORMAL + 1)) with 3.
    change (RATE_NORMAL + 1) with 3.
    change (Z.of_nat 1) with 1.
    apply Z.div_le_lower_bound; lia.
Qed.

Lemma step_within_one_period_witness :
  (1 <= transitions 1 (set_clock_rate RATE_FAST before_first_step))%nat.
Proof.
  refine (proj1 (step_within_one_period
                   (set_clock_rate RATE_FAST before_first_step) _)).
  apply reach_rate_fast. apply (reachable_run 2 boot reach_boot).
Defined.

(** ** Further properties of the push-button loop *)

Lemma land_single_bit (p k : Z) :
  0 <= k ->
  (Z.land p (2 ^ k) =? 0) = negb (Z.testbit p k).
Proof.
  intros Hk.
  assert (Z.land p (2 ^ k) = if Z.testbit p k then 2 ^ k else 0) as H.
  { apply Z.bits_inj'. intros n Hn.
    rewrite Z.land_spec, Z.pow2_bits_eqb by exact Hk.
    destruct (Z.eqb_spec k n) as [<- | Hne].
    - rewrite andb_true_r. destruct (Z.testbit p k).
      + rewrite Z.pow2_bits_eqb, Z.eqb_refl by exact Hk. reflexivity.
      + rewrite Z.bits_0. reflexivity.
    - rewrite andb_false_r. destruct (Z.testbit p k).
      + rewrite Z.pow2_bits_eqb by exact Hk.
        destruct (Z.eqb_spec k n); [contradiction | reflexivity].
      + rewrite Z.bits_0. reflexivity. }
  rewrite H. destruct (Z.testbit p k); [| reflexivity].
  assert (0 < 2 ^ k) by (apply Z.pow_pos_nonneg; lia).
  destruct (Z.eqb_spec (2 ^ k) 0); [lia | reflexivity].
Qed.

(** The pass written with the pin levels themselves: PB2 is the
    Fast-Forward button, PB4 the Fast-Reverse button, level 0 is pressed. *)
Lemma arbiter_by_pins (pinb1 pinb2 : Z) (s : machine) :
  arbiter pinb1 pinb2 s =
    if negb (Z.testbit pinb1 2) then
      set_clock_direction DIR_FWD (set_clock_rate RATE_FAST s)
    else if negb (Z.testbit pinb2 4) then
      set_clock_direction DIR_REV (set_clock_rate RATE_FAST s)
    else
      set_clock_direction DIR_FWD (set_clock_rate RATE_NORMAL s).
Proof.
  unfold arbiter.
  change BUTTON_FAST_FWD with (2 ^ 2). change BUTTON_FAST_REV with (2 ^ 4).
  rewrite !land_single_bit by lia. reflexivity.
Qed.

(** A pass that reads Fast-Forward released and Fast-Reverse pressed leaves
    the rate at Fast and the direction at Reverse, whatever the state
    before. *)
Theorem arbiter_reverse_pressed (pinb1 pinb2 : Z) (s : machine) :
  Z.land pinb1 BUTTON_FAST_FWD <> 0 ->
  Z.land pinb2 BUTTON_FAST_REV = 0 ->
  clock_rate (arbiter pinb1 pinb2 s) = RATE_FAST /\
  clock_direction (arbiter pinb1 pinb2 s) = DIR_REV.
Proof.
  intros Hf Hr. unfold arbiter.
  destruct (Z.eqb_spec (Z.land pinb1 BUTTON_FAST_FWD) 0); [contradiction |].
  rewrite Hr. split; reflexivity.
Qed.

Lemma arbiter_reverse_pressed_witness :
  clock_rate (arbiter 0x0C 0x0C boot) = RATE_FAST /\
  clock_direction (arbiter 0x0C 0x0C boot) = DIR_REV.
Proof.
  apply (arbiter_reverse_pressed 0x0C 0x0C boot);
    [vm_compute; discriminate | reflexivity].
Defined.

(** A pass looks at nothing but pin PB2 in its first read of PINB and pin
    PB4 in its second: two passes that see the same levels on these two pins
    act alike, whatever the other six bits of PINB read, among them the
    phase outputs PB0 and PB1 and the oscillator input PB3.  A pass touches
    neither the tick counter, nor the phase counter, nor the port. *)
Theorem arbiter_reads_two_pins (pinb1 pinb2 pinb1' pinb2' : Z) (s : machine) :
  Z.testbit pinb1 2 = Z.testbit pinb1' 2 ->
  Z.testbit pinb2 4 = Z.testbit pinb2' 4 ->
  arbiter pinb1 pinb2 s = arbiter pinb1' pinb2' s /\
  timerTicks (arbiter pinb1 pinb2 s) = timerTicks s /\
  two_bit_counter (arbiter pinb1 pinb2 s) = two_bit_counter s /\
  PORTB (arbiter pinb1 pinb2 s) = PORTB s.
Proof.
  intros H2 H4. rewrite !arbiter_by_pins, H2, H4.
  split; [reflexivity |].
  destruct (negb (Z.testbit pinb1' 2)), (negb (Z.testbit pinb2' 4));
    repeat split.
Qed.

Lemma arbiter_reads_two_pins_witness :
  arbiter 0x0F 0x0F before_first_step = arbiter 0x0C 0x0C before_first_step.
Proof.
  apply (proj1 (arbiter_reads_two_pins 0x0F 0x0F 0x0C 0x0C before_first_step
                  eq_refl eq_refl)).
Defined.

Lemma set_clock_rate_same (s : machine) : set_clock_rate (clock_rate s) s = s.
Proof. destruct s. reflexivity. Qed.

Lemma set_clock_direction_same (s : machine) :
  set_clock_direction (clock_direction s) s = s.
Proof. destruct s. reflexivity. Qed.

Lemma arbiter_fixed (pinb1 pinb2 : Z) (s0 s : machine) :
  clock_rate s = clock_rate (arbiter pinb1 pinb2 s0) ->
  clock_direction s = clock_direction (arbiter pinb1 pinb2 s0) ->
  arbiter pinb1 pinb2 s = s.
Proof.
  unfold arbiter.
  destruct (Z.land pinb1 BUTTON_FAST_FWD =? 0);
    [| destruct (Z.land pinb2 BUTTON_FAST_REV =? 0)];
    cbn [clock_rate clock_direction set_clock_rate set_clock_direction];
    intros Hr Hd; destruct s; cbn in *; subst; reflexivity.
Qed.

(** The loop is level-triggered and keeps no memory.  A pass overrides what
    any earlier pass stored, and a pass that reads the same levels as the
    pass before it changes nothing, however many interrupts ran in
    between. *)
Theorem arbiter_last_sample_wins (pinb1 pinb2 q1 q2 : Z) (n : nat)
    (s : machine) :
  arbiter pinb1 pinb2 (arbiter q1 q2 s) = arbiter pinb1 pinb2 s /\
  arbiter pinb1 pinb2 (run n (arbiter pinb1 pinb2 s)) =
    run n (arbiter pinb1 pinb2 s).
Proof.
  split.
  - unfold arbiter.
    destruct (Z.land pinb1 BUTTON_FAST_FWD =? 0),
             (Z.land pinb2 BUTTON_FAST_REV =? 0),
             (Z.land q1 BUTTON_FAST_FWD =? 0),
             (Z.land q2 BUTTON_FAST_REV =? 0); reflexivity.
  - apply (arbiter_fixed pinb1 pinb2 s).
    + apply run_clock_rate.
    + apply run_clock_direction.
Qed.

(** ** Interleaved executions *)

Lemma execute_pass_ops (pinb1 pinb2 : Z) (s : machine) :
  execute (pass_ops pinb1 pinb2) s = arbiter pinb1 pinb2 s.
Proof.
  unfold pass_ops, arbiter.
  destruct (Z.land pinb1 BUTTON_FAST_FWD =? 0);
    [| destruct (Z.land pinb2 BUTTON_FAST_REV =? 0)]; reflexivity.
Qed.

(** While the buttons do not change, the loop does not disturb the
    sequencer.  If the rate and direction already hold the values r and d
    that the passes keep storing, then any interleaving of interrupts with
    those stores, the interrupt falling before, between or after the two
    stores of a pass, ends in the same state as the interrupts alone. *)
Theorem steady_buttons_leave_sequencer_alone (r d : Z) (sched : list op)
    (s : machine) :
  clock_rate s = r ->
  clock_direction s = d ->
  Forall (fun o => o = Interrupt \/ o = StoreRate r \/ o = StoreDirection d)
    sched ->
  execute sched s = run (interrupts_in sched) s.
Proof.
  intros Hr Hd Hall. revert s Hr Hd.
  induction Hall as [| o sched Ho _ IH]; intros s Hr Hd; [reflexivity |].
  destruct Ho as [-> | [-> | ->]]; cbn [execute apply_op interrupts_in run].
  - apply IH; [rewrite isr_clock_rate | rewrite isr_clock_direction];
      assumption.
  - rewrite <- Hr, set_clock_rate_same. apply IH; [assumption | assumption].
  - rewrite <- Hd, set_clock_direction_same. apply IH; assumption.
Qed.

Lemma steady_buttons_leave_sequencer_alone_witness :
  execute
    ([Interrupt; StoreRate RATE_NORMAL; Interrupt; StoreDirection DIR_FWD;
      Interrupt] ++ pass_ops 0x1C 0x1C ++ [Interrupt]) boot =
  run 4 boot.
Proof.
  apply (steady_buttons_leave_sequencer_alone RATE_NORMAL DIR_FWD);
    [reflexivity | reflexivity |].
  change (pass_ops 0x1C 0x1C)
    with [StoreRate RATE_NORMAL; StoreDirection DIR_FWD].
  cbn [app]. repeat (apply Forall_cons; [auto |]). apply Forall_nil.
Defined.

(** An interrupt that falls between the two stores of a pass runs with the
    new rate and the old direction.  Compared with the same interrupt taken
    after the pass, the tick counter, the rate, the direction and the port
    end up the same; the phase counter, if the interrupt takes the compare
    branch, is stepped in the direction held before the pass instead of the
    direction the pass stores. *)
Theorem interrupt_between_stores (r d : Z) (s : machine) :
  let torn := execute [StoreRate r; Interrupt; StoreDirection d] s in
  let whole := execute [StoreRate r; StoreDirection d; Interrupt] s in
  timerTicks torn = timerTicks whole /\
  clock_rate torn = clock_rate whole /\
  clock_direction torn = clock_direction whole /\
  PORTB torn = PORTB whole /\
  two_bit_counter torn =
    (if wrap16 (timerTicks s + 1) >? r
     then step_counter (clock_direction s) (two_bit_counter s)
     else two_bit_counter s) /\
  two_bit_counter whole =
    (if wrap16 (timerTicks s + 1) >? r
     then step_counter d (two_bit_counter s)
     else two_bit_counter s).
Proof.
  cbn [execute apply_op].
  set (mid := set_clock_rate r s).
  set (done := set_clock_direction d mid).
  assert (compare_branch done = compare_branch mid) as Hb by reflexivity.
  assert (compare_branch mid = (wrap16 (timerTicks s + 1) >? r)) as Hm
      by reflexivity.
  cbn [timerTicks clock_rate clock_direction PORTB two_bit_counter
       set_clock_direction].
  rewrite !isr_timerTicks, !isr_clock_rate, !isr_clock_direction, !isr_PORTB,
    !isr_two_bit_counter, Hb, Hm.
  repeat split.
Qed.

(** The count of transitions for any alignment of the tick counter.  With
    the rate held at T and the tick counter anywhere in 0..T, N interrupts
    make floor((N + ticks) / (T+1)) transitions, which is floor(N / (T+1))
    or one more. *)
Theorem transitions_any_alignment (N : nat) (T : Z) (s : machine) :
  0 <= T < 65535 ->
  clock_rate s = T ->
  0 <= timerTicks s <= T ->
  Z.of_nat (transitions N s) = (Z.of_nat N + timerTicks s) / (T + 1) /\
  Z.of_nat N / (T + 1) <= Z.of_nat (transitions N s)
    <= Z.of_nat N / (T + 1) + 1 /\
  timerTicks (run N s) = (Z.of_nat N + timerTicks s) mod (T + 1).
Proof.
  intros HT Hr Hk.
  rewrite (transitions_from T HT N s Hr Hk).
  split; [reflexivity |]. split; [| apply (run_ticks_at T N HT s Hr Hk)].
  split.
  - apply Z.div_le_mono; lia.
  - rewrite <- (Z.div_add (Z.of_nat N) 1 (T + 1)) by lia.
    apply Z.div_le_mono; lia.
Qed.

Lemma transitions_any_alignment_witness :
  Z.of_nat (transitions 4 before_first_step) = (4 + 2) / (2 + 1).
Proof.
  refine (proj1 (transitions_any_alignment 4 2 before_first_step _ _ _)).
  - lia.
  - reflexivity.
  - change (timerTicks before_first_step) with 2. lia.
Defined.
